(** * UserContext: the authentication / authorization provider

    A shallow embedding of [src/context/UserContext.tsx].

    The component keeps four pieces of React state ([user], [roles],
    [permissions], [loading]) and derives them from three calls to the managed
    backend client: [auth.getUser], a select on [user_roles] joined with
    [roles], and a select on [resource_permissions].  The backend is opaque to
    the component, so it enters the model as the settled outcome of each of
    those promises.  State updates, backend calls and console output are the
    effects of the routine; they are threaded through a small state and
    exception monad that also records them, in order.  The routine is never
    awaited by its callers: the last part of the file cuts each run at its
    [await]s and lets runs and listener calls interleave. *)

From Stdlib Require Import ZArith String List Bool Lia.
From stdpp Require Import base option list strings gmap sets.

Local Open Scope Z_scope.

(** ** JavaScript values *)

(** An exception value ([Error], [AuthError], [PostgrestError], ...). *)
Record Error := mkError { message : string }.

(** [Boolean(s)] for a string: every string but the empty one is truthy. *)
Definition Boolean_string (s : string) : bool :=
  match s with
  | EmptyString => false
  | String _ _ => true
  end.

(** [Boolean(n)] for an integral number: every number but zero is truthy. *)
Definition Boolean_number (n : Z) : bool := negb (n =? 0).

(** [x || d] where [x] is an array or [null] / [undefined]: arrays are always
    truthy, so the default is taken only when there is no array. *)
Definition or_else {A} (x : option A) (d : A) : A :=
  match x with
  | Some a => a
  | None => d
  end.

(** How a promise settles. *)
Inductive Settled (A : Type) : Type :=
| Fulfilled (value : A)
| Rejected (reason : Error).
Arguments Fulfilled {A} value.
Arguments Rejected {A} reason.

(** ** The backend client's data *)

Module User.
  (** [User] of the client SDK; the component reads its [id] only. *)
Record t := mk { id : string }.
End User.

Module Session.
Record t := mk { user : User.t }.
End Session.

Module RolesRow.
  (** [Database['public']['Tables']['roles']['Row']]: the columns selected by
      [roles(id, role_name)]. *)
Record t := mk { id : Z; role_name : string }.
End RolesRow.

Module SupabaseUserRoleJoinResultItem.
  (** One row of [user_roles], carrying the joined role rows. *)
Record t := mk { roles : list RolesRow.t }.
End SupabaseUserRoleJoinResultItem.

(** One row of [resource_permissions] as selected by [select('resource_path')]. *)
Record ResourcePermissionRow := mkPerm { resource_path : string }.

(** [{ data: { user }, error }] as returned by [auth.getUser()].  The component
    destructures [data.user] and never reads [error]. *)
Record UserResponse := mkUserResponse {
  data_user : option User.t;
  auth_error : option Error
}.

(** [{ data, error }] as returned by a query builder. *)
Record PostgrestResponse (A : Type) := mkResponse {
  data : option A;
  error : option Error
}.
Arguments mkResponse {A} data error.
Arguments data {A} _.
Arguments error {A} _.

(** What the backend answers during one run of the fetch routine.  The two
    queries are functions of the filter values the component passes:
    [.eq('user_id', id)] for the first and [.in('role_id', ids)] (with
    [.eq('can_access', true)]) for the second. *)
Record Backend := mkBackend {
  auth_getUser : Settled UserResponse;
  from_user_roles : string -> Settled (PostgrestResponse (list SupabaseUserRoleJoinResultItem.t));
  from_resource_permissions : list Z -> Settled (PostgrestResponse (list ResourcePermissionRow))
}.

(** ** The component's state and effects *)

(** [UserContextType]: the value the provider exposes. *)
Record UserContextType := mkContext {
  user : option User.t;
  roles : option (list string);
  permissions : option (gset string);
  loading : bool
}.

Inductive Effect : Type :=
| GetUser
| SelectUserRoles (user_id : string)
| SelectResourcePermissions (role_ids : list Z)
| SetUser (u : option User.t)
| SetRoles (r : option (list string))
| SetPermissions (p : option (gset string))
| SetLoading (b : bool)
| ConsoleError (label : string) (e : Error)
| Subscribe
| Unsubscribe.

(** How a block of statements completes. *)
Inductive Completion (A : Type) : Type :=
| Normal (value : A)
| Throw (e : Error).
Arguments Normal {A} value.
Arguments Throw {A} e.

(** A computation reads and updates the React state, completes normally or
    abruptly, and emits effects. *)
Definition M (A : Type) : Type :=
  UserContextType -> Completion A * UserContextType * list Effect.

Definition ret {A} (a : A) : M A := fun s => (Normal a, s, []).

Definition bind {A B} (m : M A) (k : A -> M B) : M B :=
  fun s =>
    match m s with
    | (Normal a, s1, t1) =>
        match k a s1 with
        | (c, s2, t2) => (c, s2, t1 ++ t2)
        end
    | (Throw e, s1, t1) => (Throw e, s1, t1)
    end.

Definition throw {A} (e : Error) : M A := fun s => (Throw e, s, []).

(** [try { body } catch (error) { handler error }] *)
Definition try_catch {A} (body : M A) (handler : Error -> M A) : M A :=
  fun s =>
    match body s with
    | (Normal a, s1, t1) => (Normal a, s1, t1)
    | (Throw e, s1, t1) =>
        match handler e s1 with
        | (c, s2, t2) => (c, s2, t1 ++ t2)
        end
    end.

(** [try { body } finally { final }]: [final] always runs; when it completes
    normally the completion of [body] stands. *)
Definition try_finally {A} (body : M A) (final : M unit) : M A :=
  fun s =>
    match body s with
    | (c, s1, t1) =>
        match final s1 with
        | (Normal _, s2, t2) => (c, s2, t1 ++ t2)
        | (Throw e, s2, t2) => (Throw e, s2, t1 ++ t2)
        end
    end.

Declare Scope js_scope.
Delimit Scope js_scope with js.
Notation "x <~ m ;; k" := (bind m (fun x => k))
  (at level 100, m at next level, right associativity) : js_scope.
Notation "m ;; k" := (bind m (fun _ => k))
  (at level 100, right associativity) : js_scope.
Local Open Scope js_scope.

Definition emit (e : Effect) : M unit := fun s => (Normal tt, s, [e]).

(** [await p], [p] being the promise returned by a backend call. *)
Definition await {A} (p : Settled A) : M A :=
  match p with
  | Fulfilled v => ret v
  | Rejected e => throw e
  end.

(** [if (e) throw e] *)
Definition throw_if_error (e : option Error) : M unit :=
  match e with
  | Some err => throw err
  | None => ret tt
  end.

Definition setUser (u : option User.t) : M unit :=
  fun s => (Normal tt,
            mkContext u (roles s) (permissions s) (loading s),
            [SetUser u]).

Definition setRoles (r : option (list string)) : M unit :=
  fun s => (Normal tt,
            mkContext (user s) r (permissions s) (loading s),
            [SetRoles r]).

Definition setPermissions (p : option (gset string)) : M unit :=
  fun s => (Normal tt,
            mkContext (user s) (roles s) p (loading s),
            [SetPermissions p]).

Definition setLoading (b : bool) : M unit :=
  fun s => (Normal tt,
            mkContext (user s) (roles s) (permissions s) b,
            [SetLoading b]).

Definition console_error (label : string) (e : Error) : M unit :=
  emit (ConsoleError label e).

(** [await supabase.auth.getUser()] *)
Definition getUser (be : Backend) : M UserResponse :=
  emit GetUser ;; await (auth_getUser be).

(** [await supabase.from('user_roles').select('roles(id, role_name)').eq('user_id', id)] *)
Definition select_user_roles (be : Backend) (id : string)
  : M (PostgrestResponse (list SupabaseUserRoleJoinResultItem.t)) :=
  emit (SelectUserRoles id) ;; await (from_user_roles be id).

(** [await supabase.from('resource_permissions').select('resource_path')
      .in('role_id', roleIds).eq('can_access', true)] *)
Definition select_resource_permissions (be : Backend) (roleIds : list Z)
  : M (PostgrestResponse (list ResourcePermissionRow)) :=
  emit (SelectResourcePermissions roleIds) ;; await (from_resource_permissions be roleIds).

(** ** The provider *)

Definition error_label : string := "Error fetching user, roles, or permissions:".

(** [typedUserRolesData.flatMap(ur => ur.roles.map(role => role.role_name)).filter(Boolean)] *)
Definition role_names (typedUserRolesData : list SupabaseUserRoleJoinResultItem.t) : list string :=
  List.filter Boolean_string
    (flat_map (fun ur => map RolesRow.role_name (SupabaseUserRoleJoinResultItem.roles ur))
              typedUserRolesData).

(** [typedUserRolesData.flatMap(ur => ur.roles.map(role => role.id)).filter(Boolean)] *)
Definition role_ids (typedUserRolesData : list SupabaseUserRoleJoinResultItem.t) : list Z :=
  List.filter Boolean_number
    (flat_map (fun ur => map RolesRow.id (SupabaseUserRoleJoinResultItem.roles ur))
              typedUserRolesData).

(** [new Set(permissionsData?.map(p => p.resource_path) || [])], followed by
    the conditional [add('/')]. *)
Definition permission_set (permissionsData : option (list ResourcePermissionRow)) : gset string :=
  let fetchedPermissions : gset string :=
    list_to_set (or_else (option_map (map resource_path) permissionsData) []) in
  if bool_decide (0 < size fetchedPermissions)%nat
  then fetchedPermissions ∪ {["/"%string]}
  else fetchedPermissions.

(** The body of the [try] block. *)
Definition fetch_body (be : Backend) : M unit :=
  resp <~ getUser be ;;
  let authUser := data_user resp in
  setUser authUser ;;
  match authUser with
  | Some u =>
      r <~ select_user_roles be (User.id u) ;;
      throw_if_error (error r) ;;
      let typedUserRolesData := or_else (data r) [] in
      let fetchedRoles := role_names typedUserRolesData in
      setRoles (Some fetchedRoles) ;;
      if bool_decide (0 < length fetchedRoles)%nat then
        let roleIds := role_ids typedUserRolesData in
        p <~ select_resource_permissions be roleIds ;;
        throw_if_error (error p) ;;
        setPermissions (Some (permission_set (data p)))
      else
        setPermissions (Some ∅)
  | None =>
      setRoles None ;;
      setPermissions None
  end.

(** The [catch] block. *)
Definition fetch_catch (e : Error) : M unit :=
  console_error error_label e ;;
  setRoles None ;;
  setPermissions None.

Definition fetchUserAndRolesAndPermissions (be : Backend) : M unit :=
  setLoading true ;;
  try_finally (try_catch (fetch_body be) fetch_catch) (setLoading false).

(** The callback registered with [supabase.auth.onAuthStateChange]; [be] is
    what the backend answers should the callback start a fetch.  The run the
    callback starts is given here to its end; [deliver] below cuts it at its
    [await]s. *)
Definition onAuthStateChange (_event : string) (session : option Session.t)
    (be : Backend) : M unit :=
  match option_map Session.user session with
  | Some u =>
      setUser (Some u) ;;
      fetchUserAndRolesAndPermissions be
  | None =>
      setUser None ;;
      setRoles None ;;
      setPermissions None ;;
      setLoading false
  end.

(** The routine is an [async] function, and both of its callers call it
    without [await].  A call runs the routine up to its first [await], that is
    up to the call of [auth.getUser], and returns; the rest of the run follows
    when the promises settle. *)
Definition fetch_start : M unit :=
  setLoading true ;;
  emit GetUser.

(** The body of [useEffect], run once when the provider mounts, and its
    cleanup.  The body starts the routine, registers the listener and returns
    while the routine is still awaiting [auth.getUser]; [be] is what the
    backend will answer to that run. *)
Definition useEffect_mount (be : Backend) : M unit :=
  fetch_start ;;
  emit Subscribe.

Definition useEffect_cleanup : M unit := emit Unsubscribe.

(** The four [useState] initial values. *)
Definition initial : UserContextType :=
  mkContext None None None true.

(** Projections of a run. *)
Definition completion {A} (r : Completion A * UserContextType * list Effect) : Completion A :=
  fst (fst r).
Definition state_of {A} (r : Completion A * UserContextType * list Effect) : UserContextType :=
  snd (fst r).
Definition effects {A} (r : Completion A * UserContextType * list Effect) : list Effect :=
  snd r.

(** ** The hook *)

(** [useContext(UserContext)]: the value of the nearest enclosing
    [UserContext.Provider], nearest first, and the context's default,
    [undefined], when there is none. *)
Definition useContext (providers : list UserContextType) : option UserContextType :=
  head providers.

Definition useUser_message : string := "useUser must be used within a UserProvider".

Definition useUser (providers : list UserContextType) : Completion UserContextType :=
  match useContext providers with
  | None => Throw (mkError useUser_message)
  | Some context => Normal context
  end.

(** ** Vocabulary for the statements *)

(** The role rows joined through [user_roles], in the order of the response. *)
Definition role_rows (rows : list SupabaseUserRoleJoinResultItem.t) : list RolesRow.t :=
  flat_map SupabaseUserRoleJoinResultItem.roles rows.

(** The resource paths carried by the response of the permission query. *)
Definition returned_paths (permissionsData : option (list ResourcePermissionRow)) : list string :=
  map resource_path (or_else permissionsData []).

(** What one effect does to the React state. *)
Definition apply_effect (e : Effect) (s : UserContextType) : UserContextType :=
  match e with
  | SetUser u => mkContext u (roles s) (permissions s) (loading s)
  | SetRoles r => mkContext (user s) r (permissions s) (loading s)
  | SetPermissions p => mkContext (user s) (roles s) p (loading s)
  | SetLoading b => mkContext (user s) (roles s) (permissions s) b
  | _ => s
  end.

Definition replay (t : list Effect) (s : UserContextType) : UserContextType :=
  fold_left (fun acc e => apply_effect e acc) t s.

(** The values written to [loading] by a sequence of effects, in order. *)
Definition loading_writes (t : list Effect) : list bool :=
  flat_map (fun e => match e with SetLoading b => [b] | _ => [] end) t.

(** The effects the provider can ever emit: those of the mount effect, those
    of a run of the routine and those of the auth listener, whatever the
    backend answers. *)
Inductive emitted : Effect -> Prop :=
| emitted_mount be e :
    In e (effects (useEffect_mount be initial)) -> emitted e
| emitted_run be s e :
    In e (effects (fetchUserAndRolesAndPermissions be s)) -> emitted e
| emitted_auth _event session be s e :
    In e (effects (onAuthStateChange _event session be s)) -> emitted e.

(** Every state the provider can render: the initial one and the one after
    each emitted effect.  Runs of the routine that overlap in time interleave
    their effects, which this relation allows. *)
Inductive reachable : UserContextType -> Prop :=
| reachable_initial : reachable initial
| reachable_effect s e : reachable s -> emitted e -> reachable (apply_effect e s).

(** The root dashboard path is in the permission set whenever that set is not
    empty. *)
Definition root_granted (s : UserContextType) : Prop :=
  forall P : gset string,
    permissions s = Some P -> P <> ∅ -> "/"%string ∈ P.

(** The calls a sequence of effects makes to the backend, in order. *)
Definition is_backend_call (e : Effect) : bool :=
  match e with
  | GetUser | SelectUserRoles _ | SelectResourcePermissions _ => true
  | _ => false
  end.

Definition backend_calls (t : list Effect) : list Effect :=
  List.filter is_backend_call t.

(** No role name in the exposed list is the empty string. *)
Definition names_nonempty (s : UserContextType) : Prop :=
  forall names : list string,
    roles s = Some names -> forall n, In n names -> n <> EmptyString.

(** How the four pieces of state stand to one another after an operation has
    run to its end. *)
Definition settled (s : UserContextType) : Prop :=
  loading s = false /\
  (roles s = None <-> permissions s = None) /\
  (roles s <> None -> user s <> None) /\
  (forall P : gset string,
      permissions s = Some P -> P <> ∅ ->
      exists names, roles s = Some names /\ names <> []).

(** The state that the answers of one run determine, [prior] being the user
    held before the run: what "the state reflects the fetch" means. *)
Definition derived (be : Backend) (prior : option User.t) : UserContextType :=
  match auth_getUser be with
  | Rejected _ => mkContext prior None None false
  | Fulfilled resp =>
      match data_user resp with
      | None => mkContext None None None false
      | Some u =>
          match from_user_roles be (User.id u) with
          | Fulfilled (mkResponse d None) =>
              match role_names (or_else d []) with
              | [] => mkContext (Some u) (Some []) (Some ∅) false
              | _ :: _ =>
                  match from_resource_permissions be (role_ids (or_else d [])) with
                  | Fulfilled (mkResponse pd None) =>
                      mkContext (Some u) (Some (role_names (or_else d [])))
                        (Some (permission_set pd)) false
                  | _ => mkContext (Some u) None None false
                  end
              end
          | _ => mkContext (Some u) None None false
          end
      end
  end.

(** ** The provider over time *)

(** A run of the routine is suspended at each [await], and every [await] of
    the routine waits for the call to the backend made just before it.
    [until_await t] cuts the effects [t] still to come into those that happen
    before the run is suspended again and those left for later. *)
Fixpoint until_await (t : list Effect) : list Effect * list Effect :=
  match t with
  | [] => ([], [])
  | e :: t' =>
      if is_backend_call e then ([e], t')
      else let (seg, rest) := until_await t' in (e :: seg, rest)
  end.

(** The provider at one moment: the state it shows, the effects still to come
    of each run that is suspended, and whether the listener is registered. *)
Record Provider := mkProvider {
  shown : UserContextType;
  in_flight : list (list Effect);
  subscribed : bool
}.

(** A run with effects still to come stays in flight. *)
Definition suspend (rest : list Effect) (runs : list (list Effect)) : list (list Effect) :=
  match rest with
  | [] => runs
  | _ :: _ => runs ++ [rest]
  end.

(** Code with the effects [t] is entered: it runs up to its first [await],
    and what is left of it, if anything, is suspended. *)
Definition launch (t : list Effect) (p : Provider) : Provider :=
  let (seg, rest) := until_await t in
  mkProvider (replay seg (shown p)) (suspend rest (in_flight p)) (subscribed p).

(** A call of the routine. *)
Definition start_run (be : Backend) (p : Provider) : Provider :=
  launch (effects (fetchUserAndRolesAndPermissions be (shown p))) p.

(** The promise awaited by run [i] settles: the run goes on to its next
    [await], or to its end. *)
Definition resume (i : nat) (p : Provider) : Provider :=
  match in_flight p !! i with
  | None => p
  | Some run =>
      let (seg, rest) := until_await run in
      mkProvider (replay seg (shown p))
        (match rest with
         | [] => delete i (in_flight p)
         | _ :: _ => <[i := rest]> (in_flight p)
         end)
        (subscribed p)
  end.

(** An auth event arrives: the listener is called, if it is registered.  The
    run it may start is suspended at its first [await] like any other. *)
Definition deliver (_event : string) (session : option Session.t) (be : Backend)
    (p : Provider) : Provider :=
  if subscribed p
  then launch (effects (onAuthStateChange _event session be (shown p))) p
  else p.

(** What can happen to a mounted provider. *)
Inductive Action : Type :=
| Resume (i : nat)
| AuthStateChange (_event : string) (session : option Session.t) (be : Backend)
| Cleanup.

Definition act (p : Provider) (a : Action) : Provider :=
  match a with
  | Resume i => resume i p
  | AuthStateChange _event session be => deliver _event session be p
  | Cleanup => mkProvider (shown p) (in_flight p) false
  end.

Definition schedule (p : Provider) (l : list Action) : Provider :=
  fold_left act l p.

(** The provider when the mount effect has returned: the routine has run up
    to its first [await] and the listener is registered. *)
Definition mounted (be : Backend) : Provider :=
  let p := start_run be (mkProvider initial [] false) in
  mkProvider (shown p) (in_flight p) true.

(** The providers that can be observed, for all answers of the backend and
    all orders in which promises settle and auth events arrive. *)
Definition observable (p : Provider) : Prop :=
  exists be l, p = schedule (mounted be) l.

(** No run is in flight. *)
Definition quiescent (p : Provider) : Prop := in_flight p = [].

(** A run in flight has effects still to come, the last of which sets
    [loading] to false. *)
Definition live (run : list Effect) : Prop :=
  run <> [] /\ last run = Some (SetLoading false).

(** A query fails when its promise rejects or its response carries an error. *)
Inductive query_fails {A} : Settled (PostgrestResponse A) -> Error -> Prop :=
| query_rejected e : query_fails (Rejected e) e
| query_error d e : query_fails (Fulfilled (mkResponse d (Some e))) e.

(** A failure of the fetch chain: something is thrown inside the [try] block. *)
Inductive fetch_fails (be : Backend) : Error -> Prop :=
| user_fetch_fails e :
    auth_getUser be = Rejected e -> fetch_fails be e
| role_query_fails u ae e :
    auth_getUser be = Fulfilled (mkUserResponse (Some u) ae) ->
    query_fails (from_user_roles be (User.id u)) e ->
    fetch_fails be e
| permission_query_fails u ae d e :
    auth_getUser be = Fulfilled (mkUserResponse (Some u) ae) ->
    from_user_roles be (User.id u) = Fulfilled (mkResponse d None) ->
    role_names (or_else d []) <> [] ->
    query_fails (from_resource_permissions be (role_ids (or_else d []))) e ->
    fetch_fails be e.

(** ** Concrete backends used in the examples *)

Definition alice : User.t := User.mk "alice".
Definition boom : Error := mkError "boom".

Definition signed_in (u : User.t) : Settled UserResponse :=
  Fulfilled (mkUserResponse (Some u) None).

Definition rows {A} (l : list A) : Settled (PostgrestResponse (list A)) :=
  Fulfilled (mkResponse (Some l) None).

(** alice holds the role [admin] (id 1), which may access [/admin]. *)
Definition be_admin : Backend :=
  mkBackend
    (signed_in alice)
    (fun _ => rows [SupabaseUserRoleJoinResultItem.mk [RolesRow.mk 1 "admin"]])
    (fun _ => rows [mkPerm "/admin"]).

(** alice is signed in and holds no role. *)
Definition be_no_roles : Backend :=
  mkBackend (signed_in alice) (fun _ => rows []) (fun _ => rows [mkPerm "/admin"]).

(** Nobody is signed in. *)
Definition be_signed_out : Backend :=
  mkBackend (Fulfilled (mkUserResponse None None))
    (fun _ => rows []) (fun _ => rows []).

(** alice is signed in and the role query is rejected. *)
Definition be_roles_down : Backend :=
  mkBackend (signed_in alice) (fun _ => Rejected boom) (fun _ => rows []).

(** The call to [auth.getUser] itself is rejected. *)
Definition be_auth_down : Backend :=
  mkBackend (Rejected boom) (fun _ => rows []) (fun _ => rows []).

(** alice's only role (id 2) has an empty name. *)
Definition be_unnamed_role : Backend :=
  mkBackend
    (signed_in alice)
    (fun _ => rows [SupabaseUserRoleJoinResultItem.mk [RolesRow.mk 2 EmptyString]])
    (fun _ => rows [mkPerm "/admin"]).

(** The state the auth listener leaves behind when it is told alice's session
    and then starts a fetch: [setUser(session.user)] has run. *)
Definition alice_known : UserContextType :=
  mkContext (Some alice) None None false.

(** The mount run for alice is overtaken by a sign-out: [auth.getUser] has
    answered and the role query is pending when the listener is told that the
    session is gone; the role query and the permission query answer after
    that. *)
Definition overtaken : Provider :=
  schedule (mounted be_admin)
    [Resume 0%nat;
     AuthStateChange "SIGNED_OUT" None be_admin;
     Resume 0%nat;
     Resume 0%nat].

(** * Properties *)

Arguments permission_set : simpl never.
Arguments role_names : simpl never.
Arguments role_ids : simpl never.

(** Unfolds one run of the routine down to the backend's answers. *)
Ltac step_run :=
  unfold fetchUserAndRolesAndPermissions, fetch_body, fetch_catch, getUser,
    select_user_roles, select_resource_permissions, console_error,
    try_finally, try_catch, bind, emit, setLoading, setUser, setRoles,
    setPermissions.

Ltac solve_run := step_run; repeat (cbn; try case_bool_decide; try lia); try reflexivity.

Section Runs.
Variable be : Backend.
Variable s : UserContextType.

Local Abbreviation fetch := (fetchUserAndRolesAndPermissions be s).

Lemma run_getUser_rejected e :
  auth_getUser be = Rejected e ->
  fetch = (Normal tt, mkContext (user s) None None false,
           [SetLoading true; GetUser; ConsoleError error_label e;
            SetRoles None; SetPermissions None; SetLoading false]).
Proof. intros H. step_run. rewrite H. reflexivity. Qed.

Lemma run_signed_out ae :
  auth_getUser be = Fulfilled (mkUserResponse None ae) ->
  fetch = (Normal tt, mkContext None None None false,
           [SetLoading true; GetUser; SetUser None;
            SetRoles None; SetPermissions None; SetLoading false]).
Proof. intros H. step_run. rewrite H. reflexivity. Qed.

Section SignedIn.
Variable u : User.t.
Variable ae : option Error.
Hypothesis Hauth : auth_getUser be = Fulfilled (mkUserResponse (Some u) ae).

Lemma run_roles_failed e :
  query_fails (from_user_roles be (User.id u)) e ->
  fetch = (Normal tt, mkContext (Some u) None None false,
           [SetLoading true; GetUser; SetUser (Some u);
            SelectUserRoles (User.id u); ConsoleError error_label e;
            SetRoles None; SetPermissions None; SetLoading false]).
Proof.
  intros H. step_run. rewrite Hauth. cbn.
  inversion H as [e' Heq | d e' Heq]; subst; reflexivity.
Qed.

Section RolesFetched.
Variable d : option (list SupabaseUserRoleJoinResultItem.t).
Hypothesis Hroles : from_user_roles be (User.id u) = Fulfilled (mkResponse d None).

Local Abbreviation names := (role_names (or_else d [])).
Local Abbreviation ids := (role_ids (or_else d [])).

Lemma run_no_roles :
  names = [] ->
  fetch = (Normal tt, mkContext (Some u) (Some []) (Some ∅) false,
           [SetLoading true; GetUser; SetUser (Some u);
            SelectUserRoles (User.id u); SetRoles (Some []);
            SetPermissions (Some ∅); SetLoading false]).
Proof.
  intros H. step_run. rewrite Hauth. cbn. rewrite Hroles. cbn.
  rewrite H. reflexivity.
Qed.

Lemma some_roles_guard :
  names <> [] -> bool_decide (0 < length names)%nat = true.
Proof.
  intros H. apply bool_decide_eq_true.
  destruct names; [congruence | cbn; lia].
Qed.

Lemma run_permissions_failed e :
  names <> [] ->
  query_fails (from_resource_permissions be ids) e ->
  fetch = (Normal tt, mkContext (Some u) None None false,
           [SetLoading true; GetUser; SetUser (Some u);
            SelectUserRoles (User.id u); SetRoles (Some names);
            SelectResourcePermissions ids; ConsoleError error_label e;
            SetRoles None; SetPermissions None; SetLoading false]).
Proof.
  intros Hsome H. step_run. rewrite Hauth. cbn. rewrite Hroles. cbn.
  rewrite (some_roles_guard Hsome).
  inversion H as [e' Heq | pd e' Heq]; subst; reflexivity.
Qed.

Lemma run_permissions_fetched pd :
  names <> [] ->
  from_resource_permissions be ids = Fulfilled (mkResponse pd None) ->
  fetch = (Normal tt,
           mkContext (Some u) (Some names) (Some (permission_set pd)) false,
           [SetLoading true; GetUser; SetUser (Some u);
            SelectUserRoles (User.id u); SetRoles (Some names);
            SelectResourcePermissions ids;
            SetPermissions (Some (permission_set pd)); SetLoading false]).
Proof.
  intros Hsome H. step_run. rewrite Hauth. cbn. rewrite Hroles. cbn.
  rewrite (some_roles_guard Hsome), H. reflexivity.
Qed.

End RolesFetched.
End SignedIn.
End Runs.

(** Every backend falls under one of the six scenarios above. *)
Lemma query_cases {A} (q : Settled (PostgrestResponse A)) :
  (exists e, query_fails q e) \/ (exists d, q = Fulfilled (mkResponse d None)).
Proof.
  destruct q as [[d [e|]]|e].
  - left. exists e. constructor.
  - right. exists d. reflexivity.
  - left. exists e. constructor.
Qed.

Lemma backend_cases (be : Backend) (Q : Prop) :
  (forall e, auth_getUser be = Rejected e -> Q) ->
  (forall ae, auth_getUser be = Fulfilled (mkUserResponse None ae) -> Q) ->
  (forall u ae e,
      auth_getUser be = Fulfilled (mkUserResponse (Some u) ae) ->
      query_fails (from_user_roles be (User.id u)) e -> Q) ->
  (forall u ae d,
      auth_getUser be = Fulfilled (mkUserResponse (Some u) ae) ->
      from_user_roles be (User.id u) = Fulfilled (mkResponse d None) ->
      role_names (or_else d []) = [] -> Q) ->
  (forall u ae d e,
      auth_getUser be = Fulfilled (mkUserResponse (Some u) ae) ->
      from_user_roles be (User.id u) = Fulfilled (mkResponse d None) ->
      role_names (or_else d []) <> [] ->
      query_fails (from_resource_permissions be (role_ids (or_else d []))) e -> Q) ->
  (forall u ae d pd,
      auth_getUser be = Fulfilled (mkUserResponse (Some u) ae) ->
      from_user_roles be (User.id u) = Fulfilled (mkResponse d None) ->
      role_names (or_else d []) <> [] ->
      from_resource_permissions be (role_ids (or_else d [])) =
        Fulfilled (mkResponse pd None) -> Q) ->
  Q.
Proof.
  destruct (auth_getUser be) as [[[u|] ae]|e] eqn:Hauth;
    intros H1 H2 H3 H4 H5 H6; [ | eauto | eauto].
  destruct (query_cases (from_user_roles be (User.id u))) as [[e He]|[d Hd]];
    [eauto|].
  destruct (decide (role_names (or_else d []) = [])) as [Hn|Hn]; [eauto|].
  destruct (query_cases (from_resource_permissions be (role_ids (or_else d []))))
    as [[e He]|[pd Hpd]]; eauto.
Qed.

(** Splits a goal about one run into the six scenarios and rewrites the run
    with its result in each. *)
Ltac run_scenarios be s :=
  apply (backend_cases be);
  [ intros ?e ?Hauth; rewrite (run_getUser_rejected be s _ Hauth)
  | intros ?ae ?Hauth; rewrite (run_signed_out be s _ Hauth)
  | intros ?u ?ae ?e ?Hauth ?Hq; rewrite (run_roles_failed be s _ _ Hauth _ Hq)
  | intros ?u ?ae ?d ?Hauth ?Hroles ?Hn;
    rewrite (run_no_roles be s _ _ Hauth _ Hroles Hn)
  | intros ?u ?ae ?d ?e ?Hauth ?Hroles ?Hn ?Hq;
    rewrite (run_permissions_failed be s _ _ Hauth _ Hroles _ Hn Hq)
  | intros ?u ?ae ?d ?pd ?Hauth ?Hroles ?Hn ?Hq;
    rewrite (run_permissions_fetched be s _ _ Hauth _ Hroles _ Hn Hq) ].

(** The routine never lets an exception escape. *)
Lemma fetch_completes be s :
  completion (fetchUserAndRolesAndPermissions be s) = Normal tt.
Proof. run_scenarios be s; reflexivity. Qed.

(** The state after a run is the state before it with the run's effects
    applied in order. *)
Lemma fetch_replay be s :
  state_of (fetchUserAndRolesAndPermissions be s) =
  replay (effects (fetchUserAndRolesAndPermissions be s)) s.
Proof. run_scenarios be s; reflexivity. Qed.

(** ** The permission set *)

Lemma returned_paths_unfold pd :
  or_else (option_map (map resource_path) pd) [] = returned_paths pd.
Proof. destruct pd; reflexivity. Qed.

Lemma elem_of_permission_set pd (p : string) :
  p ∈ permission_set pd <->
  In p (returned_paths pd) \/ (p = "/"%string /\ returned_paths pd <> []).
Proof.
  unfold permission_set. rewrite returned_paths_unfold.
  case_bool_decide as Hsize.
  - apply size_pos_elem_of in Hsize as [x Hx].
    rewrite elem_of_list_to_set in Hx.
    rewrite elem_of_union, elem_of_list_to_set, elem_of_singleton, list_elem_of_In.
    split; intros [H|H]; auto.
    + right. split; [assumption|]. intros Hnil. rewrite Hnil in Hx. set_solver.
    + right. tauto.
  - rewrite elem_of_list_to_set, list_elem_of_In.
    split; [auto|]. intros [H|[_ H]]; [assumption|].
    exfalso. apply Hsize.
    destruct (returned_paths pd) as [|x l]; [congruence|].
    rewrite list_to_set_cons, size_union_alt, size_singleton. lia.
Qed.

Lemma permission_set_root pd :
  permission_set pd <> ∅ -> "/"%string ∈ permission_set pd.
Proof.
  intros Hne. apply elem_of_permission_set. right. split; [reflexivity|].
  intros Hnil. apply Hne. apply set_eq. intros p.
  rewrite elem_of_permission_set, Hnil, elem_of_empty. cbn. intuition congruence.
Qed.

(** ** No user, and a user without roles *)

Lemma role_names_rows rows :
  role_names rows = List.filter Boolean_string (map RolesRow.role_name (role_rows rows)).
Proof.
  unfold role_names, role_rows. f_equal.
  induction rows as [|ur rest IH]; [reflexivity|].
  cbn. rewrite map_app, IH. reflexivity.
Qed.

(** C6. When [auth.getUser] answers with no user, the routine sets roles and
    permissions to null and issues neither the role query nor the permission
    query. *)
Theorem signed_out_clears_without_queries be s ae :
  auth_getUser be = Fulfilled (mkUserResponse None ae) ->
  let r := fetchUserAndRolesAndPermissions be s in
  roles (state_of r) = None /\
  permissions (state_of r) = None /\
  (forall id, ~ In (SelectUserRoles id) (effects r)) /\
  (forall ids, ~ In (SelectResourcePermissions ids) (effects r)).
Proof.
  intros Hauth r. subst r. rewrite (run_signed_out be s ae Hauth). cbn.
  repeat split; intros; intuition discriminate.
Qed.

Lemma signed_out_clears_without_queries_witness :
  let r := fetchUserAndRolesAndPermissions be_signed_out alice_known in
  roles (state_of r) = None /\
  permissions (state_of r) = None /\
  (forall id, ~ In (SelectUserRoles id) (effects r)) /\
  (forall ids, ~ In (SelectResourcePermissions ids) (effects r)).
Proof.
  apply (signed_out_clears_without_queries be_signed_out alice_known None).
  reflexivity.
Defined.

(** C5. A signed-in user whose role query returns no role rows gets the empty
    array of roles and the empty set of permissions, and no permission query
    is issued; with no user signed in both are null. *)
Theorem empty_distinguishes_no_access_from_signed_out be s :
  (forall u ae d,
      auth_getUser be = Fulfilled (mkUserResponse (Some u) ae) ->
      from_user_roles be (User.id u) = Fulfilled (mkResponse d None) ->
      role_rows (or_else d []) = [] ->
      let r := fetchUserAndRolesAndPermissions be s in
      roles (state_of r) = Some [] /\
      permissions (state_of r) = Some ∅ /\
      (forall ids, ~ In (SelectResourcePermissions ids) (effects r))) /\
  (forall ae,
      auth_getUser be = Fulfilled (mkUserResponse None ae) ->
      let r := fetchUserAndRolesAndPermissions be s in
      roles (state_of r) = None /\ permissions (state_of r) = None).
Proof.
  split.
  - intros u ae d Hauth Hroles Hrows r. subst r.
    assert (Hn : role_names (or_else d []) = [])
      by (rewrite role_names_rows, Hrows; reflexivity).
    rewrite (run_no_roles be s u ae Hauth d Hroles Hn). cbn.
    repeat split; intros; intuition discriminate.
  - intros ae Hauth r. subst r. rewrite (run_signed_out be s ae Hauth).
    split; reflexivity.
Qed.

Lemma empty_distinguishes_no_access_from_signed_out_witness :
  (let r := fetchUserAndRolesAndPermissions be_no_roles initial in
   roles (state_of r) = Some [] /\
   permissions (state_of r) = Some ∅ /\
   (forall ids, ~ In (SelectResourcePermissions ids) (effects r))) /\
  (let r := fetchUserAndRolesAndPermissions be_signed_out initial in
   roles (state_of r) = None /\ permissions (state_of r) = None).
Proof.
  split.
  - apply (proj1 (empty_distinguishes_no_access_from_signed_out be_no_roles initial)
             alice None (Some [])); reflexivity.
  - apply (proj2 (empty_distinguishes_no_access_from_signed_out be_signed_out initial)
             None); reflexivity.
Defined.

(** ** The auth listener and the mount effect, in terms of the routine *)

Lemma onAuthStateChange_session _event sess be s :
  let s1 := mkContext (Some (Session.user sess)) (roles s) (permissions s) (loading s) in
  let r := fetchUserAndRolesAndPermissions be s1 in
  onAuthStateChange _event (Some sess) be s =
  (completion r, state_of r, SetUser (Some (Session.user sess)) :: effects r).
Proof.
  intros s1 r. subst r. unfold onAuthStateChange. cbn [option_map].
  unfold bind at 1. unfold setUser. fold s1.
  destruct (fetchUserAndRolesAndPermissions be s1) as [[c s2] t2]. reflexivity.
Qed.

Lemma onAuthStateChange_no_session _event be s :
  onAuthStateChange _event None be s =
  (Normal tt, mkContext None None None false,
   [SetUser None; SetRoles None; SetPermissions None; SetLoading false]).
Proof. reflexivity. Qed.

Lemma useEffect_mount_run be s :
  useEffect_mount be s =
  (Normal tt, mkContext (user s) (roles s) (permissions s) true,
   [SetLoading true; GetUser; Subscribe]).
Proof. reflexivity. Qed.

(** ** The loading flag *)

Lemma fetch_loading be s :
  let r := fetchUserAndRolesAndPermissions be s in
  head (effects r) = Some (SetLoading true) /\
  last (effects r) = Some (SetLoading false) /\
  loading_writes (effects r) = [true; false] /\
  loading (state_of r) = false.
Proof. intros r; subst r. run_scenarios be s; repeat split. Qed.

(** ** Reachable states *)

Lemma auth_replay _event session be s :
  state_of (onAuthStateChange _event session be s) =
  replay (effects (onAuthStateChange _event session be s)) s.
Proof.
  destruct session as [sess|]; [|reflexivity].
  rewrite onAuthStateChange_session. cbn [state_of effects fst snd].
  apply fetch_replay.
Qed.

Lemma mount_replay be s :
  state_of (useEffect_mount be s) = replay (effects (useEffect_mount be s)) s.
Proof.
  rewrite useEffect_mount_run. reflexivity.
Qed.

Lemma reachable_replay t :
  (forall e, In e t -> emitted e) ->
  forall s, reachable s -> reachable (replay t s).
Proof.
  induction t as [|e t IH]; intros Hall s Hs; [exact Hs|].
  cbn. apply IH.
  - intros e' He'. apply Hall. right. exact He'.
  - apply reachable_effect; [exact Hs|]. apply Hall. left. reflexivity.
Qed.

(** The state left by the mount effect, by a run of the routine and by each
    auth event is reachable. *)
Lemma reachable_mount be : reachable (state_of (useEffect_mount be initial)).
Proof.
  rewrite mount_replay. apply reachable_replay; [|constructor].
  intros e He. exact (emitted_mount be e He).
Qed.

Lemma reachable_run be s :
  reachable s -> reachable (state_of (fetchUserAndRolesAndPermissions be s)).
Proof.
  intros Hs. rewrite fetch_replay. apply reachable_replay; [|exact Hs].
  intros e He. exact (emitted_run be s e He).
Qed.

Lemma reachable_auth _event session be s :
  reachable s -> reachable (state_of (onAuthStateChange _event session be s)).
Proof.
  intros Hs. rewrite auth_replay. apply reachable_replay; [|exact Hs].
  intros e He. exact (emitted_auth _event session be s e He).
Qed.

Lemma fetch_permission_writes be s P :
  In (SetPermissions (Some P)) (effects (fetchUserAndRolesAndPermissions be s)) ->
  P <> ∅ -> "/"%string ∈ P.
Proof.
  run_scenarios be s; cbn; intros Hin Hne;
    repeat (destruct Hin as [Hin|Hin]; [try discriminate|]); try contradiction.
  - injection Hin as <-. congruence.
  - injection Hin as <-. apply permission_set_root, Hne.
Qed.

Lemma emitted_permission_writes P :
  emitted (SetPermissions (Some P)) -> P <> ∅ -> "/"%string ∈ P.
Proof.
  intros Hem.
  inversion Hem as [be e Hin|be s e Hin|_event session be s e Hin]; subst.
  - rewrite useEffect_mount_run in Hin. cbn in Hin. intuition discriminate.
  - exact (fetch_permission_writes be s P Hin).
  - destruct session as [sess|].
    + rewrite onAuthStateChange_session in Hin. cbn [effects snd] in Hin.
      destruct Hin as [Hin|Hin]; [discriminate|].
      exact (fetch_permission_writes be _ P Hin).
    + cbn in Hin. intuition discriminate.
Qed.

(** C3. In every reachable state of the provider, a non-empty permission set
    contains the path [/]. *)
Theorem reachable_root_granted s :
  reachable s -> root_granted s.
Proof.
  induction 1 as [|s e Hs IH Hem].
  - intros P HP. discriminate.
  - destruct e; try exact IH.
    intros P HP. cbn in HP. subst p. apply emitted_permission_writes, Hem.
Qed.

Lemma reachable_root_granted_witness :
  let s := state_of (fetchUserAndRolesAndPermissions be_admin initial) in
  reachable s /\ root_granted s.
Proof.
  split.
  - apply reachable_run, reachable_initial.
  - apply (reachable_root_granted
             (state_of (fetchUserAndRolesAndPermissions be_admin initial))).
    apply reachable_run, reachable_initial.
Defined.

(** ** The hook *)

(** C10. [useUser] throws exactly when it is called outside a [UserProvider],
    that is when the context is [undefined]; inside one it returns the
    provider's value unchanged. *)
Theorem useUser_throws_iff_outside_provider providers :
  ((exists e, useUser providers = Throw e) <-> useContext providers = None) /\
  (useContext providers = None <-> providers = []) /\
  (forall context enclosing,
      useUser (context :: enclosing) = Normal context).
Proof.
  unfold useUser, useContext.
  destruct providers as [|context enclosing]; cbn.
  - repeat split; eauto.
  - repeat split; try discriminate. intros [e He]. discriminate.
Qed.

(** ** The permission set of a signed-in user with roles *)

Lemma run_admin :
  fetchUserAndRolesAndPermissions be_admin initial =
  (Normal tt,
   mkContext (Some alice) (Some ["admin"%string])
     (Some (permission_set (Some [mkPerm "/admin"]))) false,
   [SetLoading true; GetUser; SetUser (Some alice);
    SelectUserRoles "alice"; SetRoles (Some ["admin"%string]);
    SelectResourcePermissions [1];
    SetPermissions (Some (permission_set (Some [mkPerm "/admin"])));
    SetLoading false]).
Proof.
  apply (run_permissions_fetched be_admin initial alice None eq_refl
           (Some [SupabaseUserRoleJoinResultItem.mk [RolesRow.mk 1 "admin"]])
           eq_refl (Some [mkPerm "/admin"])); [discriminate | reflexivity].
Qed.

(** C1, as amended.  For a signed-in user the routine fetches the user, the
    joined role rows and, roles existing, the permission rows filtered by the
    role identifiers, in that order; the permission set then holds the
    resource paths returned by that query and, when there is at least one,
    the path [/] as well. *)
Theorem permissions_are_returned_paths_and_root be s u ae d pd :
  auth_getUser be = Fulfilled (mkUserResponse (Some u) ae) ->
  from_user_roles be (User.id u) = Fulfilled (mkResponse d None) ->
  role_names (or_else d []) <> [] ->
  from_resource_permissions be (role_ids (or_else d [])) =
    Fulfilled (mkResponse pd None) ->
  let r := fetchUserAndRolesAndPermissions be s in
  exists P,
    permissions (state_of r) = Some P /\
    (forall p, p ∈ P <->
               In p (returned_paths pd) \/
               (p = "/"%string /\ returned_paths pd <> [])) /\
    effects r =
      [SetLoading true; GetUser; SetUser (Some u);
       SelectUserRoles (User.id u);
       SetRoles (Some (role_names (or_else d [])));
       SelectResourcePermissions (role_ids (or_else d []));
       SetPermissions (Some P); SetLoading false].
Proof.
  intros Hauth Hroles Hn Hperm r. subst r.
  rewrite (run_permissions_fetched be s u ae Hauth d Hroles pd Hn Hperm).
  exists (permission_set pd). split; [reflexivity|]. split; [|reflexivity].
  intros p. apply elem_of_permission_set.
Qed.

Lemma permissions_are_returned_paths_and_root_witness :
  let r := fetchUserAndRolesAndPermissions be_admin initial in
  exists P,
    permissions (state_of r) = Some P /\
    (forall p, p ∈ P <->
               In p ["/admin"%string] \/ (p = "/"%string /\ ["/admin"%string] <> [])) /\
    effects r =
      [SetLoading true; GetUser; SetUser (Some alice);
       SelectUserRoles "alice"; SetRoles (Some ["admin"%string]);
       SelectResourcePermissions [1];
       SetPermissions (Some P); SetLoading false].
Proof.
  apply (permissions_are_returned_paths_and_root be_admin initial alice None
           (Some [SupabaseUserRoleJoinResultItem.mk [RolesRow.mk 1 "admin"]])
           (Some [mkPerm "/admin"])).
  - reflexivity.
  - reflexivity.
  - discriminate.
  - reflexivity.
Defined.

(** C1, as stated, fails: alice's permission query returns [/admin] alone, yet
    her permission set is not the set of the returned paths, for it holds [/]
    too. *)
Lemma permissions_exceed_returned_paths :
  from_resource_permissions be_admin [1] = rows [mkPerm "/admin"] /\
  ~ (forall P p,
        permissions (state_of (fetchUserAndRolesAndPermissions be_admin initial)) = Some P ->
        (p ∈ P <-> In p ["/admin"%string])).
Proof.
  split; [reflexivity|]. intros Hclaim.
  specialize (Hclaim (permission_set (Some [mkPerm "/admin"])) "/"%string).
  rewrite run_admin in Hclaim. specialize (Hclaim eq_refl).
  assert (Hroot : "/"%string ∈ permission_set (Some [mkPerm "/admin"])).
  { apply elem_of_permission_set. right. split; [reflexivity|discriminate]. }
  apply Hclaim in Hroot. cbn in Hroot. intuition discriminate.
Qed.

(** ** Failures of the fetch chain *)

Lemma run_roles_down :
  fetchUserAndRolesAndPermissions be_roles_down initial =
  (Normal tt, mkContext (Some alice) None None false,
   [SetLoading true; GetUser; SetUser (Some alice);
    SelectUserRoles "alice"; ConsoleError error_label boom;
    SetRoles None; SetPermissions None; SetLoading false]).
Proof.
  apply (run_roles_failed be_roles_down initial alice None eq_refl boom).
  constructor.
Qed.

(** C2, as amended.  On a failure of the fetch chain the routine logs the
    error, sets roles and permissions to null, and ends with [loading] false.
    The user identity is not cleared: it is the user that [auth.getUser]
    answered and, when that call itself threw, the user held before the
    run. *)
Theorem failure_logs_and_clears_roles_and_permissions be s e :
  fetch_fails be e ->
  let r := fetchUserAndRolesAndPermissions be s in
  completion r = Normal tt /\
  In (ConsoleError error_label e) (effects r) /\
  roles (state_of r) = None /\
  permissions (state_of r) = None /\
  loading (state_of r) = false /\
  user (state_of r) =
    match auth_getUser be with
    | Fulfilled resp => data_user resp
    | Rejected _ => user s
    end.
Proof.
  intros Hfail r. subst r.
  destruct Hfail as [e Hauth | u ae e Hauth Hq | u ae d e Hauth Hroles Hn Hq].
  - rewrite (run_getUser_rejected be s e Hauth), Hauth. cbn. intuition.
  - rewrite (run_roles_failed be s u ae Hauth e Hq), Hauth. cbn. intuition.
  - rewrite (run_permissions_failed be s u ae Hauth d Hroles e Hn Hq), Hauth.
    cbn. intuition.
Qed.

Lemma failure_logs_and_clears_roles_and_permissions_witness :
  let r := fetchUserAndRolesAndPermissions be_roles_down initial in
  completion r = Normal tt /\
  In (ConsoleError error_label boom) (effects r) /\
  roles (state_of r) = None /\
  permissions (state_of r) = None /\
  loading (state_of r) = false /\
  user (state_of r) = Some alice.
Proof.
  apply (failure_logs_and_clears_roles_and_permissions be_roles_down initial boom).
  apply (role_query_fails be_roles_down alice None boom); [reflexivity|].
  apply query_rejected.
Defined.

(** C2, as stated, fails: alice's role query is rejected, and after the run
    the user identity is still alice. *)
Lemma failure_keeps_user :
  fetch_fails be_roles_down boom /\
  user (state_of (fetchUserAndRolesAndPermissions be_roles_down initial)) <> None.
Proof.
  split.
  - apply (role_query_fails be_roles_down alice None boom); [reflexivity|].
    apply query_rejected.
  - rewrite run_roles_down. discriminate.
Qed.

(** ** Auth state changes *)

(** C4, as amended.  An auth state change whose session carries a user makes
    the listener set that user and run the fetch routine again, which calls
    [auth.getUser] whatever the state held before; a change without a session
    user clears user, roles and permissions and sets [loading] false, with no
    call to the backend. *)
Theorem auth_change_with_user_refetches _event sess be s :
  let known := mkContext (Some (Session.user sess)) (roles s) (permissions s) (loading s) in
  let f := fetchUserAndRolesAndPermissions be known in
  let r := onAuthStateChange _event (Some sess) be s in
  effects r = SetUser (Some (Session.user sess)) :: effects f /\
  state_of r = state_of f /\
  In GetUser (effects r) /\
  onAuthStateChange _event None be s =
    (Normal tt, mkContext None None None false,
     [SetUser None; SetRoles None; SetPermissions None; SetLoading false]).
Proof.
  intros known f r. subst r f. rewrite onAuthStateChange_session. fold known.
  cbn [effects state_of fst snd].
  repeat split. right.
  run_scenarios be known; cbn; auto.
Qed.

(** C4, as stated, fails: on a sign-out event nothing is fetched. *)
Lemma sign_out_event_fetches_nothing :
  ~ In GetUser (effects (onAuthStateChange "SIGNED_OUT" None be_admin alice_known)).
Proof. cbn. intuition discriminate. Qed.

(** ** Role names *)

(** C7, as amended.  For a signed-in user whose queries succeed, the roles
    exposed are the non-empty role names of the role rows joined through
    [user_roles], one entry for each such row, in the order of the rows. *)
Theorem roles_are_truthy_role_names be s u ae d :
  auth_getUser be = Fulfilled (mkUserResponse (Some u) ae) ->
  from_user_roles be (User.id u) = Fulfilled (mkResponse d None) ->
  (role_names (or_else d []) = [] \/
   exists pd, from_resource_permissions be (role_ids (or_else d [])) =
                Fulfilled (mkResponse pd None)) ->
  roles (state_of (fetchUserAndRolesAndPermissions be s)) =
  Some (List.filter Boolean_string
          (map RolesRow.role_name (role_rows (or_else d [])))).
Proof.
  intros Hauth Hroles Hperm. rewrite <- role_names_rows.
  destruct (decide (role_names (or_else d []) = [])) as [Hn|Hn].
  - rewrite (run_no_roles be s u ae Hauth d Hroles Hn), Hn. reflexivity.
  - destruct Hperm as [Hn'|[pd Hpd]]; [contradiction|].
    rewrite (run_permissions_fetched be s u ae Hauth d Hroles pd Hn Hpd).
    reflexivity.
Qed.

Lemma roles_are_truthy_role_names_witness :
  roles (state_of (fetchUserAndRolesAndPermissions be_admin initial)) =
  Some ["admin"%string].
Proof.
  apply (roles_are_truthy_role_names be_admin initial alice None
           (Some [SupabaseUserRoleJoinResultItem.mk [RolesRow.mk 1 "admin"]])).
  - reflexivity.
  - reflexivity.
  - right. exists (Some [mkPerm "/admin"]). reflexivity.
Defined.

(** C7, as stated, fails: alice has one joined role row, whose name is the
    empty string, and her roles have no entry for it. *)
Lemma unnamed_role_has_no_entry :
  from_user_roles be_unnamed_role "alice" =
    rows [SupabaseUserRoleJoinResultItem.mk [RolesRow.mk 2 EmptyString]] /\
  roles (state_of (fetchUserAndRolesAndPermissions be_unnamed_role initial)) <>
  Some (map RolesRow.role_name
          (role_rows [SupabaseUserRoleJoinResultItem.mk [RolesRow.mk 2 EmptyString]])).
Proof.
  split; [reflexivity|].
  rewrite (run_no_roles be_unnamed_role initial alice None eq_refl
             (Some [SupabaseUserRoleJoinResultItem.mk [RolesRow.mk 2 EmptyString]])
             eq_refl eq_refl).
  discriminate.
Qed.

(** ** Determinism *)

Lemma run_auth_down s :
  fetchUserAndRolesAndPermissions be_auth_down s =
  (Normal tt, mkContext (user s) None None false,
   [SetLoading true; GetUser; ConsoleError error_label boom;
    SetRoles None; SetPermissions None; SetLoading false]).
Proof. apply (run_getUser_rejected be_auth_down s boom). reflexivity. Qed.

(** C9, as amended.  Two runs of the routine that receive identical responses
    from the auth API, the role query and the permission query emit the same
    effects and produce identical roles and permissions, whatever the states
    they start from; they produce identical users as well when the auth API
    answered, or when the two runs started with the same user.  The user a
    run ends with is the one the auth API answered and, when that call threw,
    the user the run started with. *)
Theorem fetch_determined_by_responses be1 be2 s1 s2 :
  auth_getUser be1 = auth_getUser be2 ->
  (forall id, from_user_roles be1 id = from_user_roles be2 id) ->
  (forall ids, from_resource_permissions be1 ids = from_resource_permissions be2 ids) ->
  let r1 := fetchUserAndRolesAndPermissions be1 s1 in
  let r2 := fetchUserAndRolesAndPermissions be2 s2 in
  effects r1 = effects r2 /\
  roles (state_of r1) = roles (state_of r2) /\
  permissions (state_of r1) = permissions (state_of r2) /\
  ((exists resp, auth_getUser be1 = Fulfilled resp) \/ user s1 = user s2 ->
   user (state_of r1) = user (state_of r2)) /\
  user (state_of r1) =
    match auth_getUser be1 with
    | Fulfilled resp => data_user resp
    | Rejected _ => user s1
    end /\
  user (state_of r2) =
    match auth_getUser be2 with
    | Fulfilled resp => data_user resp
    | Rejected _ => user s2
    end.
Proof.
  intros Ha Hr Hp r1 r2. subst r1 r2.
  apply (backend_cases be1).
  - intros e Hauth.
    rewrite (run_getUser_rejected be1 s1 e Hauth), <- Ha, Hauth.
    rewrite Ha in Hauth. rewrite (run_getUser_rejected be2 s2 e Hauth). cbn.
    repeat split. intros [[resp Hresp]|Hu]; [congruence|exact Hu].
  - intros ae Hauth.
    rewrite (run_signed_out be1 s1 ae Hauth), <- Ha, Hauth.
    rewrite Ha in Hauth. rewrite (run_signed_out be2 s2 ae Hauth).
    repeat split.
  - intros u ae e Hauth Hq.
    rewrite (run_roles_failed be1 s1 u ae Hauth e Hq), <- Ha, Hauth.
    rewrite Ha in Hauth. rewrite Hr in Hq.
    rewrite (run_roles_failed be2 s2 u ae Hauth e Hq).
    repeat split.
  - intros u ae d Hauth Hroles Hn.
    rewrite (run_no_roles be1 s1 u ae Hauth d Hroles Hn), <- Ha, Hauth.
    rewrite Ha in Hauth. rewrite Hr in Hroles.
    rewrite (run_no_roles be2 s2 u ae Hauth d Hroles Hn).
    repeat split.
  - intros u ae d e Hauth Hroles Hn Hq.
    rewrite (run_permissions_failed be1 s1 u ae Hauth d Hroles e Hn Hq), <- Ha, Hauth.
    rewrite Ha in Hauth. rewrite Hr in Hroles. rewrite Hp in Hq.
    rewrite (run_permissions_failed be2 s2 u ae Hauth d Hroles e Hn Hq).
    repeat split.
  - intros u ae d pd Hauth Hroles Hn Hq.
    rewrite (run_permissions_fetched be1 s1 u ae Hauth d Hroles pd Hn Hq), <- Ha, Hauth.
    rewrite Ha in Hauth. rewrite Hr in Hroles. rewrite Hp in Hq.
    rewrite (run_permissions_fetched be2 s2 u ae Hauth d Hroles pd Hn Hq).
    repeat split.
Qed.

Lemma fetch_determined_by_responses_witness :
  (let r1 := fetchUserAndRolesAndPermissions be_admin initial in
   let r2 := fetchUserAndRolesAndPermissions be_admin alice_known in
   effects r1 = effects r2 /\
   roles (state_of r1) = roles (state_of r2) /\
   permissions (state_of r1) = permissions (state_of r2) /\
   ((exists resp, auth_getUser be_admin = Fulfilled resp) \/
    user initial = user alice_known ->
    user (state_of r1) = user (state_of r2)) /\
   user (state_of r1) = Some alice /\
   user (state_of r2) = Some alice) /\
  (let r1 := fetchUserAndRolesAndPermissions be_auth_down initial in
   let r2 := fetchUserAndRolesAndPermissions be_auth_down alice_known in
   effects r1 = effects r2 /\
   roles (state_of r1) = roles (state_of r2) /\
   permissions (state_of r1) = permissions (state_of r2) /\
   ((exists resp, auth_getUser be_auth_down = Fulfilled resp) \/
    user initial = user alice_known ->
    user (state_of r1) = user (state_of r2)) /\
   user (state_of r1) = None /\
   user (state_of r2) = Some alice).
Proof.
  split.
  - apply (fetch_determined_by_responses be_admin be_admin initial alice_known);
      reflexivity.
  - apply (fetch_determined_by_responses be_auth_down be_auth_down initial alice_known);
      reflexivity.
Defined.

(** C9, as stated, fails: two runs in which [auth.getUser] is rejected with
    the same error, one started by the mount effect and one started by the
    auth listener after it set alice as the user, end with different users. *)
Lemma rejected_user_fetch_keeps_prior_user :
  user (state_of (fetchUserAndRolesAndPermissions be_auth_down initial)) <>
  user (state_of (fetchUserAndRolesAndPermissions be_auth_down alice_known)).
Proof. rewrite !run_auth_down. discriminate. Qed.

(** * Further properties of the provider *)

Ltac in_cases H :=
  cbn in H; repeat (destruct H as [H|H]; [try discriminate|]); try contradiction.

(** ** What is sent to the backend *)

(** X1. A run makes one, two or three calls to the backend: [auth.getUser]
    first, then at most one role query, then at most one permission query. *)
Theorem backend_call_discipline be s :
  let calls := backend_calls (effects (fetchUserAndRolesAndPermissions be s)) in
  calls = [GetUser] \/
  (exists id, calls = [GetUser; SelectUserRoles id]) \/
  (exists id ids,
      calls = [GetUser; SelectUserRoles id; SelectResourcePermissions ids]).
Proof.
  intros calls. subst calls. run_scenarios be s; cbn; eauto.
Qed.

(** X2. The role query is issued exactly when [auth.getUser] answers with a
    user, and it is filtered by the id of that user. *)
Theorem role_query_iff_user be s id :
  In (SelectUserRoles id) (effects (fetchUserAndRolesAndPermissions be s)) <->
  exists u ae,
    auth_getUser be = Fulfilled (mkUserResponse (Some u) ae) /\ id = User.id u.
Proof.
  run_scenarios be s; (split; [intros Hin; in_cases Hin | intros (u' & ae' & Ha & ->)]);
    try congruence;
    try (injection Hin as <-; eauto);
    try (rewrite Hauth in Ha; injection Ha as <- <-; cbn; auto).
Qed.

(** X3. The permission query is issued exactly when the role query succeeds
    with at least one non-empty role name, and it is filtered by the truthy ids
    of the joined role rows. *)
Theorem permission_query_iff_named_role be s ids :
  In (SelectResourcePermissions ids)
     (effects (fetchUserAndRolesAndPermissions be s)) <->
  exists u ae d,
    auth_getUser be = Fulfilled (mkUserResponse (Some u) ae) /\
    from_user_roles be (User.id u) = Fulfilled (mkResponse d None) /\
    role_names (or_else d []) <> [] /\
    ids = role_ids (or_else d []).
Proof.
  run_scenarios be s;
    (split; [intros Hin; in_cases Hin
            | intros (u' & ae' & d' & Ha & Hr & Hn' & ->)]);
    try congruence;
    try (injection Hin as <-; eauto 10);
    try (rewrite Hauth in Ha; injection Ha as <- <-).
  - rewrite Hr in Hq. inversion Hq.
  - rewrite Hroles in Hr. injection Hr as <-. cbn. auto 10.
  - rewrite Hroles in Hr. injection Hr as <-. cbn. auto 10.
Qed.

Lemma role_ids_rows rows :
  role_ids rows = List.filter Boolean_number (map RolesRow.id (role_rows rows)).
Proof.
  unfold role_ids, role_rows. f_equal.
  induction rows as [|ur rest IH]; [reflexivity|].
  cbn. rewrite map_app, IH. reflexivity.
Qed.

(** X4. The ids sent with the permission query are the non-zero ids of the
    joined role rows, whether or not the row's name is empty; the names kept
    are the non-empty names of those rows, whether or not the row's id is
    zero. *)
Theorem role_ids_and_names_membership rows :
  (forall i, In i (role_ids rows) <->
             i <> 0 /\ exists row, In row (role_rows rows) /\ RolesRow.id row = i) /\
  (forall n, In n (role_names rows) <->
             n <> EmptyString /\
             exists row, In row (role_rows rows) /\ RolesRow.role_name row = n).
Proof.
  split.
  - intros i. rewrite role_ids_rows, filter_In, in_map_iff.
    unfold Boolean_number. rewrite negb_true_iff, Z.eqb_neq.
    split.
    + intros [(row & Hid & Hin) Hnz]. eauto.
    + intros [Hnz (row & Hin & Hid)]. eauto.
  - intros n. rewrite role_names_rows, filter_In, in_map_iff.
    split.
    + intros [(row & Hname & Hin) Ht]. split; [|eauto].
      intros ->. discriminate.
    + intros [Hne (row & Hin & Hname)]. split; [eauto|].
      destruct n; [congruence|reflexivity].
Qed.

(** ** Logging *)

(** X5. A run writes to the console exactly when the fetch chain fails, and
    what it writes is the fixed label with the error that was thrown. *)
Theorem logs_iff_failure be s label e :
  In (ConsoleError label e) (effects (fetchUserAndRolesAndPermissions be s)) <->
  label = error_label /\ fetch_fails be e.
Proof.
  split.
  - revert label e. run_scenarios be s; intros label e' Hin; in_cases Hin;
      injection Hin as <- <-; (split; [reflexivity|]).
    + apply user_fetch_fails. assumption.
    + eapply role_query_fails; eassumption.
    + eapply permission_query_fails; eassumption.
  - intros [-> Hfail].
    destruct Hfail as [e Hauth | u ae e Hauth Hq | u ae d e Hauth Hroles Hn Hq].
    + rewrite (run_getUser_rejected be s e Hauth). cbn. auto.
    + rewrite (run_roles_failed be s u ae Hauth e Hq). cbn. auto 10.
    + rewrite (run_permissions_failed be s u ae Hauth d Hroles e Hn Hq).
      cbn. auto 10.
Qed.

(** X6. The [error] field of the answer of [auth.getUser] is never read: a
    run is the same whatever that field holds. *)
Theorem auth_error_is_ignored be s u ae ae' :
  auth_getUser be = Fulfilled (mkUserResponse u ae) ->
  fetchUserAndRolesAndPermissions
    (mkBackend (Fulfilled (mkUserResponse u ae'))
       (from_user_roles be) (from_resource_permissions be)) s =
  fetchUserAndRolesAndPermissions be s.
Proof.
  intros Hauth. step_run. cbn [auth_getUser from_user_roles from_resource_permissions].
  rewrite Hauth. reflexivity.
Qed.

Lemma auth_error_is_ignored_witness :
  fetchUserAndRolesAndPermissions
    (mkBackend (Fulfilled (mkUserResponse None (Some boom)))
       (from_user_roles be_signed_out) (from_resource_permissions be_signed_out))
    initial =
  fetchUserAndRolesAndPermissions be_signed_out initial.
Proof.
  apply (auth_error_is_ignored be_signed_out initial None None (Some boom)).
  reflexivity.
Defined.

(** ** The state an operation leaves behind *)

Lemma fetch_settled be s :
  settled (state_of (fetchUserAndRolesAndPermissions be s)).
Proof.
  unfold settled.
  run_scenarios be s; cbn; (split; [reflexivity|]);
    (split; [split; congruence|]); (split; [congruence|]);
    intros P HP Hne; try discriminate.
  - injection HP as <-. congruence.
  - eauto.
Qed.

(** ** The permission set *)

(** X8. The permission set is empty exactly when the query returned no path;
    it holds [/] exactly when the query returned some path; and it is the set
    of the returned paths, nothing added, exactly when no path was returned or
    [/] was among them. *)
Theorem permission_set_and_returned_paths pd :
  (permission_set pd = ∅ <-> returned_paths pd = []) /\
  ("/"%string ∈ permission_set pd <-> returned_paths pd <> []) /\
  (permission_set pd = list_to_set (returned_paths pd) <->
   returned_paths pd = [] \/ In "/"%string (returned_paths pd)).
Proof.
  assert (Hroot : "/"%string ∈ permission_set pd <-> returned_paths pd <> []).
  { rewrite elem_of_permission_set. split.
    - intros [Hin|[_ Hne]]; [|exact Hne]. intros Hnil. rewrite Hnil in Hin. exact Hin.
    - intros Hne. right. split; [reflexivity|exact Hne]. }
  split; [|split; [exact Hroot|]].
  - split.
    + intros Hempty.
      destruct (decide (returned_paths pd = [])) as [Hnil|Hne]; [exact Hnil|].
      exfalso. apply (not_elem_of_empty (C:=gset string) "/"%string).
      rewrite <- Hempty. apply Hroot, Hne.
    + intros Hnil. apply set_eq. intros p.
      rewrite elem_of_permission_set, Hnil, elem_of_empty. cbn.
      intuition congruence.
  - split.
    + intros Heq.
      destruct (decide (returned_paths pd = [])) as [Hnil|Hne]; [left; exact Hnil|].
      right. apply list_elem_of_In.
      apply (elem_of_list_to_set (C:=gset string)).
      rewrite <- Heq. apply Hroot, Hne.
    + intros Hcase. apply set_eq. intros p.
      rewrite elem_of_permission_set, elem_of_list_to_set, list_elem_of_In.
      split; [|auto]. intros [Hin|[-> Hne]]; [exact Hin|].
      destruct Hcase as [Hnil|Hin]; [contradiction|exact Hin].
Qed.

(** ** The auth listener and the user identity *)

(** X9. After an auth state change that carries a session user, the user
    identity is the one [auth.getUser] answers, be it another user or none;
    the session's user stays only when that call is rejected.  The role query
    is filtered by the id of the user [auth.getUser] answers. *)
Theorem session_user_is_provisional _event sess be s :
  let r := onAuthStateChange _event (Some sess) be s in
  user (state_of r) =
    match auth_getUser be with
    | Fulfilled resp => data_user resp
    | Rejected _ => Some (Session.user sess)
    end /\
  (forall id, In (SelectUserRoles id) (effects r) ->
              exists resp u, auth_getUser be = Fulfilled resp /\
                             data_user resp = Some u /\ id = User.id u).
Proof.
  intros r. subst r. rewrite onAuthStateChange_session.
  cbn [state_of effects fst snd].
  match goal with
  | |- context [fetchUserAndRolesAndPermissions be ?k] => set (known := k)
  end.
  run_scenarios be known; rewrite Hauth; cbn; (split; [reflexivity|]);
    intros id Hin; in_cases Hin; injection Hin as <-; eauto.
Qed.

(** ** Role names in reachable states *)

Lemma role_names_nonempty rows n :
  In n (role_names rows) -> n <> EmptyString.
Proof.
  unfold role_names. rewrite filter_In. intros [_ Ht] ->. discriminate.
Qed.

Lemma fetch_role_writes be s names :
  In (SetRoles (Some names)) (effects (fetchUserAndRolesAndPermissions be s)) ->
  forall n, In n names -> n <> EmptyString.
Proof.
  run_scenarios be s; intros Hin; in_cases Hin; injection Hin as <-;
    try (intros n []); apply role_names_nonempty.
Qed.

Lemma emitted_role_writes names :
  emitted (SetRoles (Some names)) ->
  forall n, In n names -> n <> EmptyString.
Proof.
  intros Hem.
  inversion Hem as [be e Hin|be s e Hin|_event session be s e Hin]; subst.
  - rewrite useEffect_mount_run in Hin. in_cases Hin.
  - exact (fetch_role_writes be s names Hin).
  - destruct session as [sess|].
    + rewrite onAuthStateChange_session in Hin. cbn [effects snd] in Hin.
      destruct Hin as [Hin|Hin]; [discriminate|].
      exact (fetch_role_writes be _ names Hin).
    + in_cases Hin.
Qed.

(** X10. In every reachable state of the provider, also between the steps of
    a run and when runs overlap, no role name in the exposed list is the
    empty string. *)
Theorem reachable_names_nonempty s :
  reachable s -> names_nonempty s.
Proof.
  induction 1 as [|s e Hs IH Hem].
  - intros names Hnames. discriminate.
  - destruct e; try exact IH.
    intros names Hnames. cbn in Hnames. subst r.
    apply emitted_role_writes, Hem.
Qed.

Lemma reachable_names_nonempty_witness :
  let s := state_of (fetchUserAndRolesAndPermissions be_admin initial) in
  reachable s /\ names_nonempty s.
Proof.
  split.
  - apply reachable_run, reachable_initial.
  - apply (reachable_names_nonempty
             (state_of (fetchUserAndRolesAndPermissions be_admin initial))).
    apply reachable_run, reachable_initial.
Defined.

(** * The provider over time *)

(** ** One run, from its answers *)

Lemma fetch_derived be s :
  state_of (fetchUserAndRolesAndPermissions be s) = derived be (user s).
Proof.
  unfold derived. run_scenarios be s; rewrite Hauth; cbn.
  - reflexivity.
  - reflexivity.
  - inversion Hq as [e' Heq | d e' Heq]; reflexivity.
  - rewrite Hroles, Hn. reflexivity.
  - rewrite Hroles. destruct (role_names (or_else d [])) eqn:Hnames; [congruence|].
    inversion Hq as [e' Heq | pd e' Heq]; reflexivity.
  - rewrite Hroles, Hq. destruct (role_names (or_else d [])); [congruence|reflexivity].
Qed.

Lemma fetch_effects_independent be s1 s2 :
  effects (fetchUserAndRolesAndPermissions be s1) =
  effects (fetchUserAndRolesAndPermissions be s2).
Proof.
  apply (backend_cases be); intros.
  - erewrite !run_getUser_rejected by eassumption. reflexivity.
  - erewrite !run_signed_out by eassumption. reflexivity.
  - erewrite !run_roles_failed by eassumption. reflexivity.
  - erewrite !run_no_roles by eassumption. reflexivity.
  - erewrite !run_permissions_failed by eassumption. reflexivity.
  - erewrite !run_permissions_fetched by eassumption. reflexivity.
Qed.

(** ** Suspension *)

Lemma until_await_app t :
  fst (until_await t) ++ snd (until_await t) = t.
Proof.
  induction t as [|e t IH]; [reflexivity|].
  cbn. destruct (is_backend_call e); [reflexivity|].
  destruct (until_await t) as [seg rest]. cbn in *. rewrite IH. reflexivity.
Qed.

Lemma replay_app t1 t2 s :
  replay (t1 ++ t2) s = replay t2 (replay t1 s).
Proof. unfold replay. apply fold_left_app. Qed.

Lemma replay_last_loading t s b :
  last t = Some (SetLoading b) -> loading (replay t s) = b.
Proof.
  intros Hlast. apply last_Some in Hlast as [t' ->].
  rewrite replay_app. reflexivity.
Qed.

Lemma live_cut run seg rest :
  live run -> until_await run = (seg, rest) ->
  match rest with
  | [] => last seg = Some (SetLoading false)
  | _ :: _ => live rest
  end.
Proof.
  intros [Hne Hlast] Hcut.
  pose proof (until_await_app run) as Happ. rewrite Hcut in Happ. cbn in Happ.
  destruct rest as [|e rest].
  - rewrite app_nil_r in Happ. subst seg. exact Hlast.
  - split; [discriminate|].
    rewrite <- Happ, last_app in Hlast.
    destruct (last (e :: rest)) eqn:Hl; [exact Hlast|].
    apply last_None in Hl. discriminate.
Qed.

Lemma fetch_rest_live be s :
  live (snd (until_await (effects (fetchUserAndRolesAndPermissions be s)))).
Proof. run_scenarios be s; cbn; (split; [discriminate|reflexivity]). Qed.

Lemma fetch_first_segment be s :
  fst (until_await (effects (fetchUserAndRolesAndPermissions be s))) =
  effects (fetch_start s).
Proof. run_scenarios be s; reflexivity. Qed.

(** ** Loading while runs are in flight *)

Lemma start_run_shape be p :
  exists rest,
    live rest /\
    start_run be p =
    mkProvider (replay (effects (fetch_start (shown p))) (shown p))
      (in_flight p ++ [rest]) (subscribed p).
Proof.
  exists (snd (until_await (effects (fetchUserAndRolesAndPermissions be (shown p))))).
  pose proof (fetch_rest_live be (shown p)) as Hlive.
  pose proof (fetch_first_segment be (shown p)) as Hfirst.
  split; [exact Hlive|]. unfold start_run, launch.
  destruct (until_await (effects (fetchUserAndRolesAndPermissions be (shown p))))
    as [seg rest].
  cbn [fst snd] in *. subst seg.
  destruct rest; [destruct Hlive; congruence|reflexivity].
Qed.

Lemma deliver_session _event sess be p :
  subscribed p = true ->
  deliver _event (Some sess) be p =
  start_run be
    (mkProvider (replay [SetUser (Some (Session.user sess))] (shown p))
       (in_flight p) (subscribed p)).
Proof.
  intros Hsub. unfold deliver, start_run, launch. rewrite Hsub.
  rewrite onAuthStateChange_session. cbn [effects snd shown in_flight subscribed].
  cbn [until_await is_backend_call].
  change (replay [SetUser (Some (Session.user sess))] (shown p))
    with (mkContext (Some (Session.user sess)) (roles (shown p))
            (permissions (shown p)) (loading (shown p))).
  match goal with
  | |- context [until_await ?t] => destruct (until_await t) as [seg rest]
  end.
  reflexivity.
Qed.

Lemma deliver_no_session _event be p :
  subscribed p = true ->
  deliver _event None be p =
  mkProvider (mkContext None None None false) (in_flight p) (subscribed p).
Proof.
  intros Hsub. unfold deliver, launch.
  rewrite onAuthStateChange_no_session. cbn. rewrite Hsub. reflexivity.
Qed.

Lemma loading_invariant_step p a :
  Forall live (in_flight p) /\ (quiescent p -> loading (shown p) = false) ->
  Forall live (in_flight (act p a)) /\
  (quiescent (act p a) -> loading (shown (act p a)) = false).
Proof.
  unfold quiescent. intros [Hlive Hq].
  destruct a as [i|_event session be|]; cbn [act].
  - unfold resume. destruct (in_flight p !! i) as [run|] eqn:Hi; [|auto].
    assert (Hrun : live run) by (eapply Forall_lookup_1; eassumption).
    destruct (until_await run) as [seg rest] eqn:Hcut.
    pose proof (live_cut run seg rest Hrun Hcut) as Hrest.
    destruct rest as [|e rest]; cbn [shown in_flight].
    + split; [apply Forall_delete, Hlive|].
      intros _. apply replay_last_loading, Hrest.
    + split; [apply Forall_insert; assumption|].
      intros Hnil. apply lookup_lt_Some in Hi.
      apply (f_equal length) in Hnil. rewrite length_insert in Hnil.
      cbn in Hnil. lia.
  - destruct (subscribed p) eqn:Hsub; [|unfold deliver; rewrite Hsub; auto].
    destruct session as [sess|].
    + rewrite (deliver_session _event sess be p Hsub).
      match goal with
      | |- context [start_run be ?q] =>
          destruct (start_run_shape be q) as (rest & Hrest & ->)
      end.
      cbn [shown in_flight]. split.
      * apply Forall_app. split; [exact Hlive|]. constructor; [exact Hrest|constructor].
      * intros Hnil. apply app_eq_nil in Hnil as [_ Hnil]. discriminate.
    + rewrite (deliver_no_session _event be p Hsub).
      cbn [shown in_flight]. split; [exact Hlive|]. intros _. reflexivity.
  - cbn [shown in_flight]. auto.
Qed.

Lemma loading_invariant_mounted be :
  Forall live (in_flight (mounted be)) /\
  (quiescent (mounted be) -> loading (shown (mounted be)) = false).
Proof.
  unfold mounted, quiescent.
  destruct (start_run_shape be (mkProvider initial [] false)) as (rest & Hrest & ->).
  cbn [shown in_flight app]. split.
  - constructor; [exact Hrest|constructor].
  - discriminate.
Qed.

Lemma loading_invariant p :
  observable p ->
  Forall live (in_flight p) /\ (quiescent p -> loading (shown p) = false).
Proof.
  intros (be & l & ->). unfold schedule.
  induction l as [|a l IH] using rev_ind.
  - apply loading_invariant_mounted.
  - rewrite fold_left_app. cbn [fold_left]. apply loading_invariant_step, IH.
Qed.

(** ** A run that nothing interleaves with *)

Lemma resume_last sh runs run sub :
  resume (length runs) (mkProvider sh (runs ++ [run]) sub) =
  mkProvider (replay (fst (until_await run)) sh)
    (suspend (snd (until_await run)) runs) sub.
Proof.
  unfold resume. cbn [in_flight shown subscribed].
  rewrite list_lookup_middle by reflexivity.
  destruct (until_await run) as [seg rest]. cbn [fst snd].
  destruct rest as [|e rest]; cbn [suspend].
  - rewrite delete_middle, app_nil_r. reflexivity.
  - rewrite insert_app_r_alt by lia. rewrite Nat.sub_diag. reflexivity.
Qed.

Arguments resume : simpl never.

(** Once started, a run that is resumed at each of its [await]s before
    anything else happens leaves the state its answers determine, and the
    other runs in flight as they were. *)
Lemma run_alone be p sub :
  schedule (mkProvider (shown (start_run be p)) (in_flight (start_run be p)) sub)
    (repeat (Resume (length (in_flight p)))
       (length (backend_calls (effects (fetchUserAndRolesAndPermissions be (shown p)))))) =
  mkProvider (state_of (fetchUserAndRolesAndPermissions be (shown p)))
    (in_flight p) sub.
Proof.
  unfold start_run, schedule.
  run_scenarios be (shown p); cbn; repeat (rewrite resume_last; cbn); reflexivity.
Qed.

Lemma start_run_eta be p :
  start_run be p =
  mkProvider (shown (start_run be p)) (in_flight (start_run be p)) (subscribed p).
Proof. destruct (start_run_shape be p) as (rest & _ & ->). reflexivity. Qed.

Lemma mount_run_alone be s :
  schedule (mounted be)
    (repeat (Resume 0)
       (length (backend_calls (effects (fetchUserAndRolesAndPermissions be s))))) =
  mkProvider (derived be None) [] true.
Proof.
  rewrite (fetch_effects_independent be s initial).
  pose proof (run_alone be (mkProvider initial [] false) true) as Halone.
  cbn [shown in_flight length] in Halone.
  unfold mounted. cbv zeta. rewrite Halone, fetch_derived. reflexivity.
Qed.

Lemma listener_run_alone be s _event sess p :
  subscribed p = true ->
  schedule p
    (AuthStateChange _event (Some sess) be ::
     repeat (Resume (length (in_flight p)))
       (length (backend_calls (effects (fetchUserAndRolesAndPermissions be s))))) =
  mkProvider (derived be (Some (Session.user sess))) (in_flight p) true.
Proof.
  intros Hsub. unfold schedule. cbn [fold_left act].
  rewrite (deliver_session _event sess be p Hsub), Hsub.
  pose proof (run_alone be
                (mkProvider (replay [SetUser (Some (Session.user sess))] (shown p))
                   (in_flight p) true) true) as Halone.
  unfold schedule in Halone. cbn [shown in_flight] in Halone.
  rewrite (fetch_effects_independent be s
             (replay [SetUser (Some (Session.user sess))] (shown p))).
  rewrite start_run_eta. cbn [subscribed].
  rewrite Halone, fetch_derived. reflexivity.
Qed.

(** ** Every state shown is a reachable state *)

Lemma cut_emitted run :
  (forall e, In e run -> emitted e) ->
  (forall e, In e (fst (until_await run)) -> emitted e) /\
  (forall e, In e (snd (until_await run)) -> emitted e).
Proof.
  intros Hall. pose proof (until_await_app run) as Happ.
  split; intros e He; apply Hall; rewrite <- Happ; apply in_or_app; auto.
Qed.

Lemma start_run_reachable be p :
  reachable (shown p) ->
  Forall (fun run => forall e, In e run -> emitted e) (in_flight p) ->
  reachable (shown (start_run be p)) /\
  Forall (fun run => forall e, In e run -> emitted e) (in_flight (start_run be p)).
Proof.
  intros Hs Hruns. unfold start_run, launch.
  destruct (cut_emitted (effects (fetchUserAndRolesAndPermissions be (shown p))))
    as [Hseg Hrest].
  { intros e He. exact (emitted_run be (shown p) e He). }
  destruct (until_await (effects (fetchUserAndRolesAndPermissions be (shown p))))
    as [seg rest].
  cbn [fst snd shown in_flight] in *. split.
  - apply reachable_replay; assumption.
  - destruct rest as [|e rest]; cbn [suspend]; [exact Hruns|].
    apply Forall_app. split; [exact Hruns|]. constructor; [exact Hrest|constructor].
Qed.

Lemma act_reachable p a :
  reachable (shown p) /\
  Forall (fun run => forall e, In e run -> emitted e) (in_flight p) ->
  reachable (shown (act p a)) /\
  Forall (fun run => forall e, In e run -> emitted e) (in_flight (act p a)).
Proof.
  intros [Hs Hruns]. destruct a as [i|_event session be|]; cbn [act].
  - unfold resume. destruct (in_flight p !! i) as [run|] eqn:Hi; [|auto].
    destruct (cut_emitted run) as [Hseg Hrest].
    { exact (Forall_lookup_1 _ _ _ _ Hruns Hi). }
    destruct (until_await run) as [seg rest]. cbn [fst snd shown in_flight] in *.
    split; [apply reachable_replay; assumption|].
    destruct rest as [|e rest]; [apply Forall_delete, Hruns|].
    apply Forall_insert; assumption.
  - destruct (subscribed p) eqn:Hsub; [|unfold deliver; rewrite Hsub; auto].
    destruct session as [sess|].
    + rewrite (deliver_session _event sess be p Hsub).
      apply start_run_reachable; cbn [shown in_flight]; [|exact Hruns].
      apply reachable_replay; [|exact Hs].
      intros e He. apply (emitted_auth _event (Some sess) be (shown p)).
      rewrite onAuthStateChange_session. cbn [effects snd].
      destruct He as [<-|[]]. left. reflexivity.
    + rewrite (deliver_no_session _event be p Hsub).
      cbn [shown in_flight]. split; [|exact Hruns].
      change (reachable
                (replay [SetUser None; SetRoles None; SetPermissions None;
                         SetLoading false] (shown p))).
      apply reachable_replay; [|exact Hs].
      intros e He. exact (emitted_auth _event None be (shown p) e He).
  - cbn [shown in_flight]. auto.
Qed.

(** Whatever the order in which promises settle and auth events arrive, the
    state shown is one of the reachable states. *)
Lemma observable_reachable p :
  observable p -> reachable (shown p).
Proof.
  intros (be & l & ->). unfold schedule.
  enough (reachable (shown (fold_left act l (mounted be))) /\
          Forall (fun run => forall e, In e run -> emitted e)
                 (in_flight (fold_left act l (mounted be)))) by tauto.
  induction l as [|a l IH] using rev_ind.
  - unfold mounted. cbn [fold_left shown in_flight].
    apply start_run_reachable; [apply reachable_initial|constructor].
  - rewrite fold_left_app. cbn [fold_left]. apply act_reachable, IH.
Qed.

(** The provider just mounted shows what the mount effect leaves, and the
    mount effect does what the routine does up to its first [await] before it
    registers the listener. *)
Lemma mounted_shown be :
  shown (mounted be) = state_of (useEffect_mount be initial) /\
  effects (useEffect_mount be initial) =
  fst (until_await (effects (fetchUserAndRolesAndPermissions be initial))) ++
  [Subscribe].
Proof.
  split.
  - unfold mounted.
    destruct (start_run_shape be (mkProvider initial [] false)) as (rest & _ & ->).
    reflexivity.
  - rewrite fetch_first_segment. reflexivity.
Qed.

(** ** Loading, and what the state reflects *)

Lemma overtaken_observable : observable overtaken.
Proof. eexists _, _. reflexivity. Qed.

Lemma overtaken_shown :
  quiescent overtaken /\
  user (shown overtaken) = None /\
  roles (shown overtaken) = Some ["admin"%string] /\
  loading (shown overtaken) = false.
Proof. repeat split; vm_compute; reflexivity. Qed.

Lemma derived_settled be prior : settled (derived be prior).
Proof.
  pose proof (fetch_settled be (mkContext prior None None false)) as Hs.
  rewrite fetch_derived in Hs. exact Hs.
Qed.

(** C8, as amended.  Every run of the routine writes [loading] exactly twice,
    true as its first effect and false as its last, and always completes,
    whatever the backend answers; the listener's sign-out branch clears the
    state and sets [loading] to false; so whenever no run is in flight,
    [loading] is false.  A run leaves the state its answers determine, and so
    the state shown reflects the latest fetch, when nothing interleaves with
    that run: when the run the listener or the mount effect starts is resumed
    at each of its [await]s before anything else happens. *)
Theorem loading_brackets_every_run be s _event :
  let r := fetchUserAndRolesAndPermissions be s in
  let awaits := length (backend_calls (effects r)) in
  completion r = Normal tt /\
  head (effects r) = Some (SetLoading true) /\
  last (effects r) = Some (SetLoading false) /\
  loading_writes (effects r) = [true; false] /\
  state_of r = derived be (user s) /\
  loading (state_of r) = false /\
  (forall p, subscribed p = true ->
             act p (AuthStateChange _event None be) =
             mkProvider (mkContext None None None false) (in_flight p) true) /\
  (forall p, observable p -> quiescent p -> loading (shown p) = false) /\
  (forall p sess,
      subscribed p = true ->
      schedule p (AuthStateChange _event (Some sess) be ::
                  repeat (Resume (length (in_flight p))) awaits) =
      mkProvider (derived be (Some (Session.user sess))) (in_flight p) true) /\
  schedule (mounted be) (repeat (Resume 0) awaits) =
  mkProvider (derived be None) [] true.
Proof.
  intros r awaits. subst r awaits.
  destruct (fetch_loading be s) as (Hh & Hl & Hw & Hs).
  split; [apply fetch_completes|].
  do 3 (split; [assumption|]).
  split; [apply fetch_derived|]. split; [assumption|]. split; [|split; [|split]].
  - intros p Hsub. cbn [act]. rewrite (deliver_no_session _event be p Hsub), Hsub.
    reflexivity.
  - intros p Hobs. apply loading_invariant, Hobs.
  - intros p sess Hsub. apply listener_run_alone, Hsub.
  - apply mount_run_alone.
Qed.

Lemma loading_brackets_every_run_witness :
  loading (shown overtaken) = false /\
  schedule (mounted be_admin)
    [AuthStateChange "SIGNED_IN" (Some (Session.mk alice)) be_admin;
     Resume 1%nat; Resume 1%nat; Resume 1%nat] =
  mkProvider (derived be_admin (Some alice))
    (in_flight (mounted be_admin)) true /\
  schedule (mounted be_admin) [Resume 0%nat; Resume 0%nat; Resume 0%nat] =
  mkProvider (derived be_admin None) [] true.
Proof.
  destruct (loading_brackets_every_run be_admin initial "SIGNED_IN")
    as (_ & _ & _ & _ & _ & _ & _ & Hquiet & Hlistener & Hmount).
  split; [|split].
  - apply (Hquiet overtaken).
    + exists be_admin,
        [Resume 0%nat; AuthStateChange "SIGNED_OUT" None be_admin;
         Resume 0%nat; Resume 0%nat].
      reflexivity.
    + vm_compute. reflexivity.
  - apply (Hlistener (mounted be_admin) (Session.mk alice)). reflexivity.
  - exact Hmount.
Defined.

(** C8, as stated, fails: alice's mount run is overtaken by a sign-out while
    its role query is pending.  When every operation has completed, [loading]
    is false and the state shown has no user but alice's roles: it is the
    state no fetch determines, whatever the answers and the user before. *)
Lemma overtaken_run_reflects_no_fetch :
  observable overtaken /\
  quiescent overtaken /\
  loading (shown overtaken) = false /\
  (forall be prior, shown overtaken <> derived be prior) /\
  shown overtaken <> mkContext None None None false.
Proof.
  destruct overtaken_shown as (Hq & Hu & Hr & Hl).
  split; [apply overtaken_observable|]. do 2 (split; [assumption|]). split.
  - intros be prior Heq.
    destruct (derived_settled be prior) as (_ & _ & Huser & _).
    rewrite <- Heq in Huser. apply Huser; [rewrite Hr; discriminate|exact Hu].
  - intros Heq. rewrite Heq in Hr. discriminate.
Qed.

(** X7. When the run that the auth listener or the mount effect starts is
    resumed at each of its [await]s before anything else happens, it leaves a
    state in which [loading] is false, roles and permissions are null
    together, roles are only there with a user, and a non-empty permission
    set only with a non-empty list of roles, whatever the backend answers,
    whatever was shown before and whatever other runs are in flight; the
    listener's sign-out branch leaves such a state as well. *)
Theorem uninterrupted_run_leaves_settled_state be s _event sess p :
  subscribed p = true ->
  let awaits :=
    length (backend_calls (effects (fetchUserAndRolesAndPermissions be s))) in
  settled (shown (schedule p (AuthStateChange _event (Some sess) be ::
                              repeat (Resume (length (in_flight p))) awaits))) /\
  settled (shown (schedule (mounted be) (repeat (Resume 0) awaits))) /\
  settled (shown (act p (AuthStateChange _event None be))).
Proof.
  intros Hsub awaits. subst awaits. split; [|split].
  - rewrite (listener_run_alone be s _event sess p Hsub). apply derived_settled.
  - rewrite mount_run_alone. apply derived_settled.
  - cbn [act]. rewrite (deliver_no_session _event be p Hsub).
    unfold settled. cbn. repeat split; intros; congruence.
Qed.

Lemma uninterrupted_run_leaves_settled_state_witness :
  settled (shown (schedule (mounted be_admin)
                    [AuthStateChange "SIGNED_IN" (Some (Session.mk alice)) be_admin;
                     Resume 1%nat; Resume 1%nat; Resume 1%nat])) /\
  settled (shown (schedule (mounted be_admin)
                    [Resume 0%nat; Resume 0%nat; Resume 0%nat])) /\
  settled (shown (act (mounted be_admin)
                    (AuthStateChange "SIGNED_IN" None be_admin))).
Proof.
  apply (uninterrupted_run_leaves_settled_state be_admin initial "SIGNED_IN"
           (Session.mk alice) (mounted be_admin)).
  reflexivity.
Defined.
